(** * inline_expansion: the demo program (main.c) and the UART helper
      (print_config.c), embedded as executable Rocq definitions.

    Conventions of the embedding.
    - A C [int] is a [Z]; arithmetic on it is followed by [int_wrap], the
      32-bit two's complement reduction.
    - A [char] is an [ascii]; the characters the program can address form
      one array of cells, [memory], and a [char*] is either the null
      pointer or the address of a cell (possibly one past the last cell).
      Reading a cell that does not exist has no defined result: [None].
    - What the program does to the outside is recorded, in order, in a
      [trace]: function entries, dereferences made by the program text
      itself, and the bytes each [printf] sends to the standard output.
      The one thing the outside tells the program is recorded there too:
      that the standard output has failed. Code runs in the monad [M]: a
      trace transformer that may be undefined. *)

From Stdlib Require Import ZArith List Bool Ascii String Lia PeanoNat.
From Stdlib Require Import Numbers.DecimalString.
Import ListNotations.

Open Scope Z_scope.

(** ** Machine integers *)

Definition INT_MAX : Z := 2147483647.
Definition INT_MIN : Z := -2147483648.

Definition int_wrap (z : Z) : Z := (z + 2 ^ 31) mod 2 ^ 32 - 2 ^ 31.

Definition int_range (z : Z) : Prop := INT_MIN <= z <= INT_MAX.

(** ** Characters, memory, pointers *)

Definition NUL : ascii := Ascii.zero.

Definition is_nul (ch : ascii) : bool := Ascii.eqb ch NUL.

Definition memory := list ascii.

Inductive pointer : Type :=
| Null
| Ptr (addr : nat).

(** [p] used as a condition: a pointer is true when it is not null. *)
Definition truthy (p : pointer) : bool :=
  match p with
  | Null => false
  | Ptr _ => true
  end.

(** [p + 1]. *)
Definition ptr_succ (p : pointer) : option pointer :=
  match p with
  | Null => None
  | Ptr a => Some (Ptr (S a))
  end.

(** [*p]. *)
Definition load (m : memory) (p : pointer) : option ascii :=
  match p with
  | Null => None
  | Ptr a => nth_error m a
  end.

(** The characters of the null-terminated string that starts with the first
    of [cells]; [None] when no terminator follows. *)
Fixpoint take_cstring (cells : list ascii) : option (list ascii) :=
  match cells with
  | [] => None
  | ch :: rest =>
      if is_nul ch then Some []
      else option_map (cons ch) (take_cstring rest)
  end.

Definition cstring (m : memory) (p : pointer) : option (list ascii) :=
  match p with
  | Null => None
  | Ptr a => take_cstring (skipn a m)
  end.

(** ** Traces and the monad of the program *)

(** The first three events are what the program does. [EvStdoutError] is
    the environment's: from it on the standard output stream is in error
    (a closed descriptor, a full device), and no code of the program emits
    it. *)
Inductive event : Type :=
| EvCall (fn : string)
| EvLoad (p : pointer)
| EvPrint (bytes : string)
| EvStdoutError.

Definition trace := list event.

Definition M (A : Type) : Type := trace -> option (A * trace).

Definition ret {A} (a : A) : M A := fun t => Some (a, t).

Definition bind {A B} (c : M A) (k : A -> M B) : M B :=
  fun t => match c t with
           | Some (a, t') => k a t'
           | None => None
           end.

Definition undefined {A} : M A := fun _ => None.

Definition emit (e : event) : M unit := fun t => Some (tt, t ++ [e]).

Definition lift {A} (o : option A) : M A :=
  match o with
  | Some a => ret a
  | None => undefined
  end.

Notation "x <- c ;; k" := (bind c (fun x => k))
  (at level 61, c at next level, right associativity).
Notation "c ;;; k" := (bind c (fun _ => k))
  (at level 61, right associativity).

(** The lines of text a trace sent to the standard output, one entry per
    [printf]. *)
Fixpoint stdout (t : trace) : list string :=
  match t with
  | [] => []
  | EvPrint s :: t' => s :: stdout t'
  | _ :: t' => stdout t'
  end.

(** The addresses a trace dereferenced. *)
Fixpoint loads (t : trace) : list pointer :=
  match t with
  | [] => []
  | EvLoad p :: t' => p :: loads t'
  | _ :: t' => loads t'
  end.

(** Whether the standard output stream still transmits. *)
Fixpoint stream_ok (t : trace) : bool :=
  match t with
  | [] => true
  | EvStdoutError :: _ => false
  | _ :: t' => stream_ok t'
  end.

(** The functions a trace entered. *)
Fixpoint calls (t : trace) : list string :=
  match t with
  | [] => []
  | EvCall f :: t' => f :: calls t'
  | _ :: t' => calls t'
  end.

(** ** The C library: [printf] and [strlen] *)

(** A text followed by a line feed. *)
Definition line (s : string) : string := s ++ String "010"%char EmptyString.

Inductive printf_arg : Type :=
| ArgStr (s : string)
| ArgInt (z : Z).

(** [%d]. *)
Definition decimal (z : Z) : string := NilZero.string_of_int (Z.to_int z).

(** Expansion of a format with the conversions [%s] and [%d]. *)
Fixpoint format (fmt : string) (args : list printf_arg) : option string :=
  match fmt with
  | EmptyString => Some EmptyString
  | String "%" (String "s" rest) =>
      match args with
      | ArgStr s :: args' => option_map (append s) (format rest args')
      | _ => None
      end
  | String "%" (String "d" rest) =>
      match args with
      | ArgInt z :: args' => option_map (append (decimal z)) (format rest args')
      | _ => None
      end
  | String ch rest => option_map (String ch) (format rest args)
  end.

(** The negative value [printf] returns when it fails; the C library is
    free in its choice, the common ones return [-1]. *)
Definition printf_error : Z := -1.

(** The [int] that [printf] returns for the text [out]: the number of
    characters transmitted, or a negative value when the stream is in
    error or that number is not an [int]. *)
Definition printf_result (t : trace) (out : string) : Z :=
  if stream_ok t && (Z.of_nat (String.length out) <=? INT_MAX)
  then Z.of_nat (String.length out)
  else printf_error.

(** [printf] hands the expanded format to the standard output and returns
    what [printf_result] says. *)
Definition printf (fmt : string) (args : list printf_arg) : M Z :=
  out <- lift (format fmt args) ;;
  emit (EvPrint out) ;;;
  fun t => Some (printf_result t out, t).

Definition strlen (m : memory) (p : pointer) : M nat :=
  s <- lift (cstring m p) ;;
  ret (List.length s).

(** ** main.c *)

Module MainC.

(** The locals of [bar]. *)
Record bar_locals : Type := {
  count : Z;
  c : pointer;
  i : Z
}.

(** The [for] statement of [bar]:
    [for (int i = 0; ( *c++ ) && i < len; ++i) { count++; }].
    One unit of [fuel] pays for one evaluation of the loop test. *)
Fixpoint bar_for (fuel : nat) (m : memory) (len : Z) (st : bar_locals)
  : M bar_locals :=
  match fuel with
  | O => undefined
  | S fuel' =>
      (* ( *c++ ) *)
      emit (EvLoad (c st)) ;;;
      ch <- lift (load m (c st)) ;;
      c' <- lift (ptr_succ (c st)) ;;
      if negb (is_nul ch) && (i st <? len) then
        (* count++ and then ++i *)
        bar_for fuel' m len
          {| count := int_wrap (count st + 1); c := c';
             i := int_wrap (i st + 1) |}
      else ret {| count := count st; c := c'; i := i st |}
  end.

(** The locals of [bar] when its loop is left. Each test of the loop reads
    one more cell, so it is evaluated at most once more than there are
    cells. *)
Definition bar_scan (m : memory) (str : pointer) (len : Z) : M bar_locals :=
  bar_for (S (List.length m)) m len {| count := 0; c := str; i := 0 |}.

(** [(c ? "No" : "Yes")]. *)
Definition bar_answer (c : pointer) : string :=
  if truthy c then "No" else "Yes".

Definition bar (m : memory) (str : pointer) (len : Z) : M unit :=
  emit (EvCall "bar") ;;;
  st <- bar_scan m str len ;;
  printf (line "Matching count ? %s") [ArgStr (bar_answer (c st))] ;;;
  ret tt.

Definition foo (m : memory) (x : Z) (str : pointer) (len : Z) : M Z :=
  emit (EvCall "foo") ;;;
  if x <? 10 then
    printf (line "X less than 10") [] ;;;
    ret (-1)
  else
    bar m str len ;;;
    s <- lift (cstring m str) ;;
    printf (line "%s has %d chars")
      [ArgStr (string_of_list_ascii s); ArgInt len].

(** The storage of the literal ["Hello"] of [main]. *)
Definition hello : memory := list_ascii_of_string "Hello" ++ [NUL].

Definition main : M Z :=
  emit (EvCall "main") ;;;
  let m := hello in
  let x := 10 in
  let str := Ptr 0 in
  n <- strlen m str ;;
  let len := int_wrap (Z.of_nat n) in
  y <- foo m x str len ;;
  printf (line "Foo return : %d") [ArgInt y] ;;;
  ret 0.

End MainC.

(** ** print_config.c *)

Module PrintConfig.

Inductive HAL_StatusTypeDef : Type :=
| HAL_OK
| HAL_ERROR
| HAL_BUSY
| HAL_TIMEOUT.

Section HAL.

(** What the vendor's hardware abstraction layer declares, and the unit
    only uses: the type of UART handles, the handle [huart2] defined
    elsewhere, the constant [HAL_MAX_DELAY], the state of the
    peripherals, and what a blocking transmission of [Size] bytes found
    at [pData] does to that state and answers. *)
Variable UART_HandleTypeDef : Type.
Variable huart2 : UART_HandleTypeDef.
Variable HAL_MAX_DELAY : Z.
Variable peripherals : Type.
Variable HAL_UART_Transmit :
  UART_HandleTypeDef -> list ascii -> Z -> Z ->
  peripherals -> HAL_StatusTypeDef * peripherals.

(** One call of [HAL_UART_Transmit], as the layer received it. *)
Record transmit_call : Type := {
  huart : UART_HandleTypeDef;
  pData : list ascii;
  Size : Z;
  Timeout : Z
}.

(** The peripherals together with the calls made so far. *)
Record world : Type := {
  hw : peripherals;
  hal_calls : list transmit_call
}.

Definition call_HAL_UART_Transmit
    (h : UART_HandleTypeDef) (data : list ascii) (size timeout : Z)
    (w : world) : HAL_StatusTypeDef * world :=
  let (status, hw') := HAL_UART_Transmit h data size timeout (hw w) in
  (status,
   {| hw := hw';
      hal_calls := hal_calls w ++
        [{| huart := h; pData := data; Size := size;
            Timeout := timeout |}] |}).

(** [sizeof(char)]. *)
Definition sizeof_char : Z := 1.

(** [&c], the address of the parameter, is passed as the one-byte
    buffer that holds [c]. *)
Definition send_char (c : ascii) (w : world) : unit * world :=
  let (_, w') :=
    call_HAL_UART_Transmit huart2 [c] sizeof_char HAL_MAX_DELAY w in
  (tt, w').

End HAL.

Arguments huart {UART_HandleTypeDef} _.
Arguments pData {UART_HandleTypeDef} _.
Arguments Size {UART_HandleTypeDef} _.
Arguments Timeout {UART_HandleTypeDef} _.
Arguments hw {UART_HandleTypeDef peripherals} _.
Arguments hal_calls {UART_HandleTypeDef peripherals} _.
Arguments call_HAL_UART_Transmit {UART_HandleTypeDef peripherals}
  HAL_UART_Transmit h data size timeout w.
Arguments send_char {UART_HandleTypeDef} huart2 HAL_MAX_DELAY {peripherals}
  HAL_UART_Transmit c w.

End PrintConfig.

(** ** Vocabulary of the statements *)

(** The events of a scan that dereferences [k] cells from address [a] on. *)
Definition scan_events (a k : nat) : trace := map EvLoad (map Ptr (seq a k)).

(** How often the body of the loop runs when [len] more rounds are allowed
    and [n] characters precede the terminator. *)
Definition bar_rounds (len : Z) (n : nat) : nat :=
  Z.to_nat (Z.min len (Z.of_nat n)).

(** The text [foo] prints for the string [s] and the bound [len]. *)
Definition has_chars_line (s : list ascii) (len : Z) : string :=
  string_of_list_ascii s ++ " has " ++ decimal len ++ line " chars".

(** The character before the last one. *)
Fixpoint before_last (s : string) : option ascii :=
  match s with
  | EmptyString => None
  | String a (String _ EmptyString) => Some a
  | String _ rest => before_last rest
  end.

(** A character other than the terminator. *)
Definition not_nul (ch : ascii) : bool := negb (is_nul ch).

(** The call [send_char c] hands to the layer. *)
Definition char_call {H : Type} (huart2 : H) (HAL_MAX_DELAY : Z) (c : ascii)
  : PrintConfig.transmit_call H :=
  {| PrintConfig.huart := huart2; PrintConfig.pData := [c];
     PrintConfig.Size := 1; PrintConfig.Timeout := HAL_MAX_DELAY |}.

(** [send_char] called on each character of [cs], one after the other. *)
Definition send_chars {H : Type} (huart2 : H) (HAL_MAX_DELAY : Z) {P : Type}
    (HAL_UART_Transmit :
       H -> list ascii -> Z -> Z -> P -> PrintConfig.HAL_StatusTypeDef * P)
    (cs : list ascii) (w : PrintConfig.world H P) : PrintConfig.world H P :=
  fold_left
    (fun w c =>
       snd (PrintConfig.send_char huart2 HAL_MAX_DELAY HAL_UART_Transmit c w))
    cs w.

(** A memory that holds [n] letters and then the terminator. *)
Definition letters (n : nat) : memory := repeat "a"%char n ++ [NUL].

(** One letter more than an [int] can count. *)
Definition too_many : nat := Z.to_nat (INT_MAX + 1).

(** * Properties *)

(** ** Arithmetic and list facts *)

Lemma int_wrap_id (z : Z) : int_range z -> int_wrap z = z.
Proof.
  unfold int_range, int_wrap, INT_MIN, INT_MAX. intros H.
  rewrite Z.mod_small; lia.
Qed.

Lemma is_nul_true (ch : ascii) : is_nul ch = true -> ch = NUL.
Proof. unfold is_nul. apply Ascii.eqb_eq. Qed.

Lemma skipn_cons_nth_error {A} (l : list A) :
  forall (a : nat) (x : A) (rest : list A),
    skipn a l = x :: rest -> nth_error l a = Some x /\ skipn (S a) l = rest.
Proof.
  induction l as [|y l IH]; intros a x rest H.
  - destruct a; discriminate H.
  - destruct a as [|a].
    + simpl in H. inversion H; subst. split; reflexivity.
    + simpl in H. apply IH in H. exact H.
Qed.

Lemma take_cstring_shorter (cells : list ascii) :
  forall s, take_cstring cells = Some s -> (List.length s < List.length cells)%nat.
Proof.
  induction cells as [|ch rest IH]; intros s H; simpl in H.
  - discriminate H.
  - destruct (is_nul ch).
    + inversion H; subst. simpl. lia.
    + destruct (take_cstring rest) as [s'|]; simpl in H; [|discriminate H].
      inversion H; subst. specialize (IH s' eq_refl). simpl. lia.
Qed.

Lemma cstring_fits (m : memory) (a : nat) (s : list ascii) :
  cstring m (Ptr a) = Some s -> (a + List.length s < List.length m)%nat.
Proof.
  simpl. intros H. apply take_cstring_shorter in H.
  rewrite length_skipn in H. lia.
Qed.

Lemma loads_app (t u : trace) : loads (t ++ u) = loads t ++ loads u.
Proof.
  induction t as [|[f|p|b|] t IH]; simpl; rewrite ?IH; reflexivity.
Qed.

Lemma stdout_app (t u : trace) : stdout (t ++ u) = stdout t ++ stdout u.
Proof.
  induction t as [|[f|p|b|] t IH]; simpl; rewrite ?IH; reflexivity.
Qed.

Lemma calls_app (t u : trace) : calls (t ++ u) = calls t ++ calls u.
Proof.
  induction t as [|[f|p|b|] t IH]; simpl; rewrite ?IH; reflexivity.
Qed.

Lemma loads_scan_events (a k : nat) : loads (scan_events a k) = map Ptr (seq a k).
Proof.
  unfold scan_events. revert a.
  induction k as [|k IH]; intros a; simpl; [reflexivity|].
  rewrite IH. reflexivity.
Qed.

Lemma stdout_scan_events (a k : nat) : stdout (scan_events a k) = [].
Proof.
  unfold scan_events. revert a.
  induction k as [|k IH]; intros a; simpl; [reflexivity|]. apply IH.
Qed.

Lemma calls_scan_events (a k : nat) : calls (scan_events a k) = [].
Proof.
  unfold scan_events. revert a.
  induction k as [|k IH]; intros a; simpl; [reflexivity|]. apply IH.
Qed.

(** ** The loop of [bar] *)

Lemma bar_for_run (m : memory) (len : Z) (Hlen : int_range len) :
  forall (s : list ascii) (a : nat) (j : Z) (fuel : nat) (t : trace),
    take_cstring (skipn a m) = Some s ->
    0 <= j ->
    (List.length s < fuel)%nat ->
    let d := bar_rounds (len - j) (List.length s) in
    MainC.bar_for fuel m len
      {| MainC.count := j; MainC.c := Ptr a; MainC.i := j |} t =
    Some ({| MainC.count := j + Z.of_nat d; MainC.c := Ptr (a + S d);
             MainC.i := j + Z.of_nat d |},
          t ++ scan_events a (S d)).
Proof.
  induction s as [|x s IH]; intros a j fuel t Hs Hj Hfuel d;
    (destruct fuel as [|fuel]; [simpl in Hfuel; lia|]);
    destruct (skipn a m) as [|ch rest] eqn:Hskip; try discriminate Hs;
    apply skipn_cons_nth_error in Hskip; destruct Hskip as [Hnth Hrest];
    simpl in Hs; destruct (is_nul ch) eqn:Hch.
  - (* the terminator is read at once *)
    assert (Hd : d = 0%nat) by (unfold d, bar_rounds; simpl; lia).
    rewrite Hd. simpl. unfold bind, emit, lift, ret. simpl.
    rewrite Hnth, Hch. simpl.
    rewrite Z.add_0_r, Nat.add_1_r. reflexivity.
  - destruct (take_cstring rest); discriminate Hs.
  - discriminate Hs.
  - destruct (take_cstring rest) as [s'|] eqn:Hrest'; simpl in Hs;
      [|discriminate Hs].
    inversion Hs; subst x s'. clear Hs.
    simpl. unfold bind, emit, lift, ret. simpl.
    rewrite Hnth, Hch. simpl.
    destruct (j <? len) eqn:Hjl.
    + apply Z.ltb_lt in Hjl.
      assert (Hw : int_wrap (j + 1) = j + 1).
      { apply int_wrap_id. unfold int_range, INT_MIN, INT_MAX in *. lia. }
      rewrite Hw.
      rewrite <- Hrest in Hrest'.
      specialize (IH (S a) (j + 1) fuel (t ++ [EvLoad (Ptr a)]) Hrest').
      simpl in IH. rewrite IH; [|lia|simpl in Hfuel; lia].
      assert (Hd : d = S (bar_rounds (len - (j + 1)) (List.length s))).
      { unfold d, bar_rounds. simpl List.length. lia. }
      rewrite Hd. f_equal. f_equal.
      * f_equal; try lia. f_equal. lia.
      * rewrite <- app_assoc. reflexivity.
    + apply Z.ltb_ge in Hjl.
      assert (Hd : d = 0%nat) by (unfold d, bar_rounds; lia).
      rewrite Hd. simpl.
      rewrite Z.add_0_r, Nat.add_1_r. reflexivity.
Qed.

Lemma bar_scan_run (m : memory) (a : nat) (s : list ascii) (len : Z) (t : trace) :
  cstring m (Ptr a) = Some s ->
  int_range len ->
  let d := bar_rounds len (List.length s) in
  MainC.bar_scan m (Ptr a) len t =
  Some ({| MainC.count := Z.of_nat d; MainC.c := Ptr (a + S d);
           MainC.i := Z.of_nat d |},
        t ++ scan_events a (S d)).
Proof.
  intros Hs Hlen d. unfold MainC.bar_scan.
  pose proof (cstring_fits _ _ _ Hs) as Hfit.
  rewrite (bar_for_run m len Hlen s a 0 (S (List.length m)) t Hs);
    [|lia|lia].
  subst d. rewrite Z.sub_0_r. reflexivity.
Qed.

(** The fuel [bar_scan] gives its loop is never used up: from the address
    [a] on, any amount above the number of cells left gives the same
    outcome, so an undefined outcome always comes from a dereference. *)
Lemma bar_for_fuel (m : memory) (len : Z) :
  forall (fuel1 fuel2 a : nat) (n j : Z) (t : trace),
    (List.length m - a < fuel1)%nat ->
    (List.length m - a < fuel2)%nat ->
    MainC.bar_for fuel1 m len
      {| MainC.count := n; MainC.c := Ptr a; MainC.i := j |} t =
    MainC.bar_for fuel2 m len
      {| MainC.count := n; MainC.c := Ptr a; MainC.i := j |} t.
Proof.
  induction fuel1 as [|fuel1 IH]; intros fuel2 a n j t H1 H2; [lia|].
  destruct fuel2 as [|fuel2]; [lia|].
  simpl. unfold bind, emit, lift. simpl.
  destruct (nth_error m a) as [ch|] eqn:Hnth; [|reflexivity].
  assert (Ha : (a < List.length m)%nat)
    by (apply nth_error_Some; rewrite Hnth; discriminate).
  unfold ret. simpl.
  destruct (negb (is_nul ch) && (j <? len)); [|reflexivity].
  apply IH; lia.
Qed.

(** Whenever the loop of [bar] is left, the cursor is not null and nothing
    has been printed. *)
Lemma bar_for_cursor (m : memory) (len : Z) :
  forall (fuel : nat) (st : MainC.bar_locals) (t : trace)
         (st' : MainC.bar_locals) (t' : trace),
    MainC.bar_for fuel m len st t = Some (st', t') ->
    truthy (MainC.c st') = true /\ stdout t' = stdout t.
Proof.
  induction fuel as [|fuel IH]; intros st t st' t' H; [discriminate H|].
  simpl in H. unfold bind, emit, lift in H.
  destruct (load m (MainC.c st)) as [ch|]; [|discriminate H].
  destruct (MainC.c st) as [|a]; [discriminate H|].
  unfold ret in H. simpl in H.
  destruct (negb (is_nul ch) && (MainC.i st <? len)).
  - apply IH in H. destruct H as [Hc Ht]. split; [exact Hc|].
    rewrite Ht, stdout_app. simpl. apply app_nil_r.
  - inversion H; subst. simpl. split; [reflexivity|].
    rewrite stdout_app. simpl. apply app_nil_r.
Qed.

(** Whatever its arguments, when [bar] returns it has printed
    ["Matching count ? No"] and nothing else. *)
Lemma bar_never_yes (m : memory) (str : pointer) (len : Z) (t t' : trace) :
  MainC.bar m str len t = Some (tt, t') ->
  stdout t' = stdout t ++ [line "Matching count ? No"].
Proof.
  unfold MainC.bar, bind at 1, emit at 1. unfold bind at 1.
  destruct (MainC.bar_scan m str len (t ++ [EvCall "bar"]))
    as [[st t1]|] eqn:Hscan; [|discriminate].
  apply bar_for_cursor in Hscan. destruct Hscan as [Hc Ht].
  unfold MainC.bar_answer. rewrite Hc. cbn.
  intros H. inversion H; subst.
  rewrite stdout_app, Ht, stdout_app. simpl.
  rewrite app_nil_r. reflexivity.
Qed.

Lemma cstring_terminated (m : memory) (a : nat) (s : list ascii) :
  cstring m (Ptr a) = Some s -> load m (Ptr (a + List.length s)) = Some NUL.
Proof.
  simpl. revert a. induction s as [|x s IH]; intros a H;
    destruct (skipn a m) as [|ch rest] eqn:Hskip; try discriminate H;
    apply skipn_cons_nth_error in Hskip; destruct Hskip as [Hnth Hrest];
    simpl in H; destruct (is_nul ch) eqn:Hch; try discriminate H.
  - apply is_nul_true in Hch. subst ch. simpl. rewrite Nat.add_0_r. exact Hnth.
  - destruct (take_cstring rest); discriminate H.
  - destruct (take_cstring rest) as [s'|] eqn:Hrest'; simpl in H;
      [|discriminate H].
    inversion H; subst x s'. rewrite <- Hrest in Hrest'.
    apply IH in Hrest'. simpl List.length.
    replace (a + S (List.length s))%nat with (S a + List.length s)%nat by lia.
    exact Hrest'.
Qed.

Lemma cstring_char (m : memory) (a : nat) (s : list ascii) :
  cstring m (Ptr a) = Some s ->
  forall j, (j < List.length s)%nat ->
    exists ch, load m (Ptr (a + j)) = Some ch /\ is_nul ch = false.
Proof.
  simpl. revert a. induction s as [|x s IH]; intros a H j Hj;
    [simpl in Hj; lia|].
  destruct (skipn a m) as [|ch rest] eqn:Hskip; try discriminate H.
  apply skipn_cons_nth_error in Hskip. destruct Hskip as [Hnth Hrest].
  simpl in H. destruct (is_nul ch) eqn:Hch; try discriminate H.
  destruct (take_cstring rest) as [s'|] eqn:Hrest'; simpl in H;
    [|discriminate H].
  inversion H; subst x s'. rewrite <- Hrest in Hrest'.
  destruct j as [|j].
  - exists ch. rewrite Nat.add_0_r. split; assumption.
  - replace (a + S j)%nat with (S a + j)%nat by lia.
    apply (IH (S a) Hrest' j). simpl in Hj. lia.
Qed.

Lemma bar_rounds_le (len : Z) (n : nat) : (bar_rounds len n <= n)%nat.
Proof. unfold bar_rounds. lia. Qed.

Lemma last_scan_loads (a d : nat) :
  last (map Ptr (seq a (S d))) Null = Ptr (a + d).
Proof. rewrite seq_S, map_app. simpl. apply last_last. Qed.

(** ** [bar], [foo] and [printf] *)

Lemma string_length_app (u v : string) :
  String.length (u ++ v) = (String.length u + String.length v)%nat.
Proof. induction u as [|x u IH]; simpl; [|rewrite IH]; reflexivity. Qed.

Lemma string_of_list_ascii_length (s : list ascii) :
  String.length (string_of_list_ascii s) = List.length s.
Proof. induction s as [|x s IH]; simpl; [|rewrite IH]; reflexivity. Qed.

Lemma before_last_app (u v : string) :
  (2 <= String.length v)%nat -> before_last (u ++ v) = before_last v.
Proof.
  intros Hv. induction u as [|x u IH]; [reflexivity|].
  rewrite <- IH.
  assert (Hw : (2 <= String.length (u ++ v))%nat)
    by (rewrite string_length_app; lia).
  change (String x u ++ v)%string with (String x (u ++ v)).
  destruct (u ++ v)%string as [|y [|z w]]; simpl in Hw; try lia; reflexivity.
Qed.

Lemma has_chars_line_length (s : list ascii) (len : Z) :
  (12 <= String.length (has_chars_line s len))%nat.
Proof.
  unfold has_chars_line. rewrite !string_length_app. simpl. lia.
Qed.

Lemma has_chars_line_not_diagnostic (s : list ascii) (len : Z) :
  has_chars_line s len <> line "X less than 10".
Proof.
  intros H. apply (f_equal before_last) in H.
  unfold has_chars_line in H.
  do 3 (rewrite before_last_app in H
          by (rewrite ?string_length_app; simpl; lia)).
  discriminate H.
Qed.

(** What [bar] does on a pointer to a null-terminated string. *)
Lemma bar_run (m : memory) (a : nat) (s : list ascii) (len : Z) (t : trace) :
  cstring m (Ptr a) = Some s ->
  int_range len ->
  MainC.bar m (Ptr a) len t =
  Some (tt,
        t ++ [EvCall "bar"]
          ++ scan_events a (S (bar_rounds len (List.length s)))
          ++ [EvPrint (line "Matching count ? No")]).
Proof.
  intros Hs Hlen. unfold MainC.bar, bind at 1, emit at 1.
  unfold bind at 1.
  rewrite (bar_scan_run m a s len (t ++ [EvCall "bar"]) Hs Hlen).
  cbn. rewrite <- !app_assoc. reflexivity.
Qed.

(** What [foo] does below the threshold. *)
Lemma foo_low_run (m : memory) (x : Z) (str : pointer) (len : Z) (t : trace) :
  x < 10 ->
  MainC.foo m x str len t =
  Some (-1, t ++ [EvCall "foo"; EvPrint (line "X less than 10")]).
Proof.
  intros Hx. apply Z.ltb_lt in Hx.
  unfold MainC.foo, bind at 1, emit at 1. rewrite Hx.
  cbn. rewrite <- app_assoc. reflexivity.
Qed.

Lemma stream_ok_app (t u : trace) :
  stream_ok (t ++ u) = stream_ok t && stream_ok u.
Proof.
  induction t as [|[f|p|b|] t IH]; simpl; rewrite ?IH; reflexivity.
Qed.

Lemma stream_ok_scan_events (a k : nat) : stream_ok (scan_events a k) = true.
Proof.
  unfold scan_events. revert a.
  induction k as [|k IH]; intros a; simpl; [reflexivity|]. apply IH.
Qed.

(** What the program adds to a trace does not change what [printf]
    returns. *)
Lemma printf_result_app (t u : trace) (out : string) :
  stream_ok u = true -> printf_result (t ++ u) out = printf_result t out.
Proof.
  intros Hu. unfold printf_result.
  rewrite stream_ok_app, Hu, andb_true_r. reflexivity.
Qed.

(** When the stream transmits and the text is short enough, [printf]
    returns the length of the text; otherwise a negative value. *)
Lemma printf_result_ok (t : trace) (out : string) :
  stream_ok t = true ->
  Z.of_nat (String.length out) <= INT_MAX ->
  printf_result t out = Z.of_nat (String.length out).
Proof.
  intros Ht Hout. unfold printf_result. rewrite Ht.
  apply Z.leb_le in Hout. rewrite Hout. reflexivity.
Qed.

Lemma printf_result_failed (t : trace) (out : string) :
  stream_ok t = false \/ INT_MAX < Z.of_nat (String.length out) ->
  printf_result t out < 0.
Proof.
  intros [Ht|Hout]; unfold printf_result.
  - rewrite Ht. reflexivity.
  - apply Z.leb_gt in Hout. rewrite Hout, andb_false_r. reflexivity.
Qed.

(** What [foo] does from the threshold on. *)
Lemma foo_high_run (m : memory) (x : Z) (a : nat) (s : list ascii) (len : Z)
    (t : trace) :
  10 <= x ->
  cstring m (Ptr a) = Some s ->
  int_range len ->
  MainC.foo m x (Ptr a) len t =
  Some (printf_result t (has_chars_line s len),
        t ++ ([EvCall "foo"; EvCall "bar"]
                ++ scan_events a (S (bar_rounds len (List.length s))))
          ++ [EvPrint (line "Matching count ? No");
              EvPrint (has_chars_line s len)]).
Proof.
  intros Hx Hs Hlen. apply Z.ltb_ge in Hx.
  unfold MainC.foo, bind at 1, emit at 1. rewrite Hx.
  unfold bind at 1.
  rewrite (bar_run m a s len (t ++ [EvCall "foo"]) Hs Hlen).
  unfold bind at 1. rewrite Hs. unfold lift, ret.
  unfold printf, bind, lift.
  change (format (line "%s has %d chars")
            [ArgStr (string_of_list_ascii s); ArgInt len])
    with (Some (has_chars_line s len)).
  unfold ret, emit.
  rewrite <- !app_assoc.
  rewrite (printf_result_app t); [reflexivity|].
  rewrite !stream_ok_app, stream_ok_scan_events. reflexivity.
Qed.

(** ** The scan of [bar] *)

(** C1, as stated, fails: with the bound [-1] on ["Hello"] ([-1 <= 5]) the
    counter is incremented [0] times, not [min (-1) 5 = -1] times. *)
Lemma bar_count_negative_bound :
  cstring MainC.hello (Ptr 0) = Some (list_ascii_of_string "Hello") /\
  -1 <= Z.of_nat (List.length (list_ascii_of_string "Hello")) /\
  exists st t,
    MainC.bar_scan MainC.hello (Ptr 0) (-1) [] = Some (st, t) /\
    MainC.count st = 0 /\
    MainC.count st <>
      Z.min (-1) (Z.of_nat (List.length (list_ascii_of_string "Hello"))).
Proof.
  split; [reflexivity|]. split; [vm_compute; discriminate|].
  eexists. eexists. split; [vm_compute; reflexivity|].
  split; [reflexivity|]. vm_compute. discriminate.
Qed.

(** C1 (amended): for every null-terminated string [s] at [str] and every
    bound [len <= length s], the loop of [bar] leaves the counter at
    [max 0 (min len (length s))], [bar] prints ["Matching count ? No"], and
    the answer is ["Yes"] exactly for a null cursor, which the cursor left
    by the loop is not. *)
Theorem bar_count_and_answer (m : memory) (str : pointer) (s : list ascii)
    (len : Z) (t : trace) :
  cstring m str = Some s ->
  int_range len ->
  len <= Z.of_nat (List.length s) ->
  (exists st t1,
      MainC.bar_scan m str len t = Some (st, t1) /\
      MainC.count st = Z.max 0 (Z.min len (Z.of_nat (List.length s))) /\
      MainC.c st <> Null) /\
  (exists t',
      MainC.bar m str len t = Some (tt, t ++ t') /\
      stdout t' = [line "Matching count ? No"]) /\
  (forall p, MainC.bar_answer p = "Yes"%string <-> p = Null).
Proof.
  intros Hs Hlen Hle.
  destruct str as [|a]; [discriminate Hs|].
  split; [|split].
  - rewrite (bar_scan_run m a s len t Hs Hlen).
    eexists. eexists. split; [reflexivity|]. simpl.
    split; [unfold bar_rounds; lia|discriminate].
  - rewrite (bar_run m a s len t Hs Hlen).
    eexists. split; [reflexivity|].
    rewrite !stdout_app, stdout_scan_events. reflexivity.
  - intros [|b]; simpl; split; intros H; try reflexivity; discriminate H.
Qed.

Lemma bar_count_and_answer_witness :
  (exists st t1,
      MainC.bar_scan MainC.hello (Ptr 0) 3 [] = Some (st, t1) /\
      MainC.count st = Z.max 0 (Z.min 3 (Z.of_nat 5)) /\
      MainC.c st <> Null) /\
  (exists t',
      MainC.bar MainC.hello (Ptr 0) 3 [] = Some (tt, [] ++ t') /\
      stdout t' = [line "Matching count ? No"]) /\
  (forall p, MainC.bar_answer p = "Yes"%string <-> p = Null).
Proof.
  apply (bar_count_and_answer MainC.hello (Ptr 0)
           (list_ascii_of_string "Hello") 3 []).
  - reflexivity.
  - unfold int_range, INT_MIN, INT_MAX. lia.
  - simpl. lia.
Defined.

(** C2, evaluated where it fails: on ["Hello"] with the bound [2] the scan
    dereferences the cells 0, 1 and 2; cell 2 holds ['l'], which is neither
    among the first two characters nor the terminator. *)
Theorem bar_reads_past_bound :
  cstring MainC.hello (Ptr 0) = Some (list_ascii_of_string "Hello") /\
  exists st t,
    MainC.bar_scan MainC.hello (Ptr 0) 2 [] = Some (st, t) /\
    loads t = [Ptr 0; Ptr 1; Ptr 2] /\
    load MainC.hello (Ptr 2) = Some "l"%char /\
    is_nul "l"%char = false /\
    MainC.count st = 2.
Proof.
  split; [reflexivity|].
  eexists. eexists. split; [vm_compute; reflexivity|].
  repeat split.
Qed.

(** The over-read in general: whenever the bound is shorter than the
    string, the loop dereferences the cell at index [len], which holds a
    character of the string and not the terminator. *)
Lemma bar_scan_reads_cell_at_bound (m : memory) (a : nat) (s : list ascii)
    (len : Z) (t : trace) :
  cstring m (Ptr a) = Some s ->
  int_range len ->
  0 <= len < Z.of_nat (List.length s) ->
  exists st t' ch,
    MainC.bar_scan m (Ptr a) len t = Some (st, t ++ t') /\
    In (Ptr (a + Z.to_nat len)) (loads t') /\
    load m (Ptr (a + Z.to_nat len)) = Some ch /\
    is_nul ch = false.
Proof.
  intros Hs Hr Hlen.
  destruct (cstring_char m a s Hs (Z.to_nat len)) as (ch & Hload & Hch);
    [lia|].
  rewrite (bar_scan_run m a s len t Hs Hr).
  eexists. eexists. exists ch. split; [reflexivity|].
  split; [|split; assumption].
  rewrite loads_scan_events. apply in_map. apply in_seq.
  unfold bar_rounds. lia.
Qed.

(** C8: for every null-terminated string at [str] and every bound, the loop
    of [bar] terminates with the cursor [k] cells after [str], where [k] is
    the number of cells the loop dereferenced; these are the [k] cells from
    [str] on, so the cursor is one past the last of them, and when the
    terminator is among them the cursor is right after the terminator. *)
Theorem bar_cursor_after_scan (m : memory) (a : nat) (s : list ascii)
    (len : Z) (t : trace) :
  cstring m (Ptr a) = Some s ->
  int_range len ->
  exists st t' k,
    MainC.bar_scan m (Ptr a) len t = Some (st, t ++ t') /\
    k = List.length (loads t') /\
    loads t' = map Ptr (seq a k) /\
    MainC.c st = Ptr (a + k) /\
    (exists k', k = S k' /\ last (loads t') Null = Ptr (a + k')) /\
    (In (Ptr (a + List.length s)) (loads t') ->
     MainC.c st = Ptr (a + List.length s + 1)).
Proof.
  intros Hs Hlen.
  rewrite (bar_scan_run m a s len t Hs Hlen).
  set (d := bar_rounds len (List.length s)).
  exists {| MainC.count := Z.of_nat d; MainC.c := Ptr (a + S d);
            MainC.i := Z.of_nat d |}, (scan_events a (S d)), (S d).
  rewrite loads_scan_events.
  split; [reflexivity|].
  split; [rewrite length_map, length_seq; reflexivity|].
  split; [reflexivity|].
  split; [reflexivity|].
  split.
  - exists d. split; [reflexivity|]. apply last_scan_loads.
  - intros Hin. apply in_map_iff in Hin. destruct Hin as (j & Hj & Hin).
    inversion Hj; subst j. apply in_seq in Hin.
    pose proof (bar_rounds_le len (List.length s)) as Hd. fold d in Hd.
    simpl. f_equal. lia.
Qed.

Lemma bar_cursor_after_scan_witness :
  exists st t' k,
    MainC.bar_scan MainC.hello (Ptr 0) 2 [] = Some (st, [] ++ t') /\
    k = List.length (loads t') /\
    loads t' = map Ptr (seq 0 k) /\
    MainC.c st = Ptr (0 + k) /\
    (exists k', k = S k' /\ last (loads t') Null = Ptr (0 + k')) /\
    (In (Ptr (0 + List.length (list_ascii_of_string "Hello"))) (loads t') ->
     MainC.c st = Ptr (0 + List.length (list_ascii_of_string "Hello") + 1)).
Proof.
  apply (bar_cursor_after_scan MainC.hello 0
           (list_ascii_of_string "Hello") 2 []).
  - reflexivity.
  - unfold int_range, INT_MIN, INT_MAX. lia.
Defined.

(** C9: for every null-terminated string at [str], the empty one included,
    and every bound, the non-positive ones included, [bar] returns having
    printed one line, ["Matching count ? No"]. *)
Theorem bar_always_no (m : memory) (str : pointer) (s : list ascii)
    (len : Z) (t : trace) :
  cstring m str = Some s ->
  int_range len ->
  exists t',
    MainC.bar m str len t = Some (tt, t ++ t') /\
    stdout t' = [line "Matching count ? No"].
Proof.
  intros Hs Hlen.
  destruct str as [|a]; [discriminate Hs|].
  rewrite (bar_run m a s len t Hs Hlen).
  eexists. split; [reflexivity|].
  rewrite !stdout_app, stdout_scan_events. reflexivity.
Qed.

Lemma bar_always_no_witness :
  (cstring [NUL] (Ptr 0) = Some [] /\ int_range (-3)) /\
  exists t',
    MainC.bar [NUL] (Ptr 0) (-3) [] = Some (tt, [] ++ t') /\
    stdout t' = [line "Matching count ? No"].
Proof.
  assert (Hs : cstring [NUL] (Ptr 0) = Some []) by reflexivity.
  assert (Hlen : int_range (-3))
    by (unfold int_range, INT_MIN, INT_MAX; lia).
  split; [split; assumption|].
  apply (bar_always_no [NUL] (Ptr 0) [] (-3) [] Hs Hlen).
Defined.

(** C10: for every null-terminated string [s] at [str] and every bound, the
    counter left by the loop of [bar] is at most [length s]; when
    [len >= length s] it is [length s] and the last cell the loop read is
    the terminator. *)
Theorem bar_count_stops_at_terminator (m : memory) (a : nat)
    (s : list ascii) (len : Z) (t : trace) :
  cstring m (Ptr a) = Some s ->
  int_range len ->
  exists st t',
    MainC.bar_scan m (Ptr a) len t = Some (st, t ++ t') /\
    MainC.count st <= Z.of_nat (List.length s) /\
    (Z.of_nat (List.length s) <= len ->
     MainC.count st = Z.of_nat (List.length s) /\
     last (loads t') Null = Ptr (a + List.length s) /\
     load m (Ptr (a + List.length s)) = Some NUL).
Proof.
  intros Hs Hlen.
  rewrite (bar_scan_run m a s len t Hs Hlen).
  eexists. eexists. split; [reflexivity|]. simpl MainC.count.
  pose proof (bar_rounds_le len (List.length s)) as Hd.
  split; [lia|]. intros Hle.
  assert (Heq : bar_rounds len (List.length s) = List.length s)
    by (unfold bar_rounds; lia).
  rewrite Heq, loads_scan_events, last_scan_loads.
  repeat split. exact (cstring_terminated m a s Hs).
Qed.

Lemma bar_count_stops_at_terminator_witness :
  exists st t',
    MainC.bar_scan MainC.hello (Ptr 0) 9 [] = Some (st, [] ++ t') /\
    MainC.count st <= Z.of_nat 5 /\
    (Z.of_nat 5 <= 9 ->
     MainC.count st = Z.of_nat 5 /\
     last (loads t') Null = Ptr (0 + 5) /\
     load MainC.hello (Ptr (0 + 5)) = Some NUL).
Proof.
  apply (bar_count_stops_at_terminator MainC.hello 0
           (list_ascii_of_string "Hello") 9 []).
  - reflexivity.
  - unfold int_range, INT_MIN, INT_MAX. lia.
Defined.

(** ** [foo] and [main] *)

(** C3: for every [x < 10], whatever [str] and [len] are, [foo] returns
    [-1] having printed the line ["X less than 10"] and nothing else, and
    without entering [bar]. *)
Theorem foo_below_threshold (m : memory) (x : Z) (str : pointer) (len : Z)
    (t : trace) :
  x < 10 ->
  exists t',
    MainC.foo m x str len t = Some (-1, t ++ t') /\
    stdout t' = [line "X less than 10"] /\
    ~ In "bar"%string (calls t') /\
    loads t' = [].
Proof.
  intros Hx. rewrite (foo_low_run m x str len t Hx).
  eexists. split; [reflexivity|]. simpl.
  repeat split. intros [H|[]]. discriminate H.
Qed.

Lemma foo_below_threshold_witness :
  exists t',
    MainC.foo MainC.hello 5 (Ptr 0) 5 [] = Some (-1, [] ++ t') /\
    stdout t' = [line "X less than 10"] /\
    ~ In "bar"%string (calls t') /\
    loads t' = [].
Proof.
  apply (foo_below_threshold MainC.hello 5 (Ptr 0) 5 []). lia.
Defined.

Lemma take_cstring_repeat (ch : ascii) (rest : list ascii) :
  is_nul ch = false ->
  forall n, take_cstring (repeat ch n ++ NUL :: rest) = Some (repeat ch n).
Proof.
  intros Hch. induction n as [|n IH]; simpl; [reflexivity|].
  rewrite Hch, IH. reflexivity.
Qed.

Lemma cstring_letters (n : nat) :
  cstring (letters n) (Ptr 0) = Some (repeat "a"%char n).
Proof.
  change (cstring (letters n) (Ptr 0)) with (take_cstring (letters n)).
  apply take_cstring_repeat. reflexivity.
Qed.

(** The line of a string that is too long for an [int] is too long for an
    [int]. *)
Lemma has_chars_line_too_long (s : list ascii) (len : Z) :
  INT_MAX < Z.of_nat (List.length s) ->
  INT_MAX < Z.of_nat (String.length (has_chars_line s len)).
Proof.
  intros H. unfold has_chars_line.
  rewrite string_length_app, string_of_list_ascii_length. lia.
Qed.

(** What [foo] returns from the threshold on when [printf] fails. *)
Lemma foo_high_failed (m : memory) (x : Z) (a : nat) (s : list ascii)
    (len : Z) (t : trace) :
  10 <= x ->
  cstring m (Ptr a) = Some s ->
  int_range len ->
  stream_ok t = false \/
    INT_MAX < Z.of_nat (String.length (has_chars_line s len)) ->
  exists r t', MainC.foo m x (Ptr a) len t = Some (r, t ++ t') /\ r < 0.
Proof.
  intros Hx Hs Hlen Hfail.
  rewrite (foo_high_run m x a s len t Hx Hs Hlen).
  eexists. eexists. split; [reflexivity|].
  apply printf_result_failed. exact Hfail.
Qed.

(** C4, as stated, fails, in two ways. On a string of [INT_MAX + 1]
    letters, with [x = 10] and [len = 5], the line is longer than an [int]
    can tell and [foo] returns a negative value. On ["Hello"] with a
    standard output that is in error, [foo] returns a negative value too.
    In both cases the value is not the positive length of the line. *)
Lemma foo_return_not_line_length :
  (10 <= 10 /\
   cstring (letters too_many) (Ptr 0) = Some (repeat "a"%char too_many) /\
   exists r t',
     MainC.foo (letters too_many) 10 (Ptr 0) 5 [] = Some (r, [] ++ t') /\
     r < 0) /\
  (cstring MainC.hello (Ptr 0) = Some (list_ascii_of_string "Hello") /\
   exists r t',
     MainC.foo MainC.hello 10 (Ptr 0) 5 [EvStdoutError] =
       Some (r, [EvStdoutError] ++ t') /\
     r < 0).
Proof.
  assert (H5 : int_range 5) by (unfold int_range, INT_MIN, INT_MAX; lia).
  assert (Hx : 10 <= 10) by lia.
  split.
  - split; [exact Hx|]. split; [apply cstring_letters|].
    apply (foo_high_failed _ 10 0 _ 5 [] Hx (cstring_letters too_many) H5).
    right. apply has_chars_line_too_long.
    rewrite repeat_length. unfold too_many, INT_MAX. lia.
  - split; [reflexivity|].
    apply (foo_high_failed MainC.hello 10 0 (list_ascii_of_string "Hello")
             5 [EvStdoutError] Hx eq_refl H5).
    left. reflexivity.
Qed.

(** C4 (amended): for every [x >= 10], every null-terminated string [s] at
    [str] and every [len], when the standard output is not in error and
    the line ["<s> has <len> chars"] with its line feed has at most
    [INT_MAX] bytes, [foo] does not print ["X less than 10"]; the last
    thing it prints is that line, and it returns the number of bytes of
    that line, which is positive. *)
Theorem foo_at_threshold (m : memory) (x : Z) (str : pointer)
    (s : list ascii) (len : Z) (t : trace) :
  10 <= x ->
  cstring m str = Some s ->
  int_range len ->
  stream_ok t = true ->
  Z.of_nat (String.length (has_chars_line s len)) <= INT_MAX ->
  exists r t',
    MainC.foo m x str len t = Some (r, t ++ t') /\
    ~ In (line "X less than 10") (stdout t') /\
    last (stdout t') EmptyString = has_chars_line s len /\
    r = Z.of_nat (String.length (has_chars_line s len)) /\
    0 < r.
Proof.
  intros Hx Hs Hlen Hok Hfit.
  destruct str as [|a]; [discriminate Hs|].
  rewrite (foo_high_run m x a s len t Hx Hs Hlen).
  rewrite (printf_result_ok t _ Hok Hfit).
  eexists. eexists. split; [reflexivity|].
  rewrite !stdout_app, stdout_scan_events. simpl.
  pose proof (has_chars_line_length s len) as Hl.
  pose proof (has_chars_line_not_diagnostic s len) as Hne.
  repeat split; try lia.
  intros [H|[H|[]]]; [discriminate H|]. exact (Hne H).
Qed.

Lemma foo_at_threshold_witness :
  exists r t',
    MainC.foo MainC.hello 10 (Ptr 0) 5 [] = Some (r, [] ++ t') /\
    ~ In (line "X less than 10") (stdout t') /\
    last (stdout t') EmptyString =
      has_chars_line (list_ascii_of_string "Hello") 5 /\
    r = Z.of_nat
          (String.length (has_chars_line (list_ascii_of_string "Hello") 5)) /\
    0 < r.
Proof.
  apply (foo_at_threshold MainC.hello 10 (Ptr 0)
           (list_ascii_of_string "Hello") 5 []).
  - lia.
  - reflexivity.
  - unfold int_range, INT_MIN, INT_MAX. lia.
  - reflexivity.
  - vm_compute. discriminate.
Defined.

(** C7: for every [x >= 10], every null-terminated string at [str] and
    every [len], the trace of [foo] ends with the line
    ["Matching count ? No"] followed by the line ["<s> has <len> chars"];
    [bar] is entered before both, and nothing is printed before them. *)
Theorem foo_bar_before_line (m : memory) (x : Z) (str : pointer)
    (s : list ascii) (len : Z) (t : trace) :
  10 <= x ->
  cstring m str = Some s ->
  int_range len ->
  exists r pre,
    MainC.foo m x str len t =
      Some (r, t ++ pre ++ [EvPrint (line "Matching count ? No");
                            EvPrint (has_chars_line s len)]) /\
    In (EvCall "bar") pre /\
    stdout pre = [].
Proof.
  intros Hx Hs Hlen.
  destruct str as [|a]; [discriminate Hs|].
  rewrite (foo_high_run m x a s len t Hx Hs Hlen).
  eexists. eexists. split; [reflexivity|]. split.
  - simpl. right. left. reflexivity.
  - rewrite stdout_app, stdout_scan_events. reflexivity.
Qed.

Lemma foo_bar_before_line_witness :
  exists r pre,
    MainC.foo MainC.hello 12 (Ptr 0) 5 [] =
      Some (r, [] ++ pre ++
                 [EvPrint (line "Matching count ? No");
                  EvPrint (has_chars_line (list_ascii_of_string "Hello") 5)]) /\
    In (EvCall "bar") pre /\
    stdout pre = [].
Proof.
  apply (foo_bar_before_line MainC.hello 12 (Ptr 0)
           (list_ascii_of_string "Hello") 5 []).
  - lia.
  - reflexivity.
  - unfold int_range, INT_MIN, INT_MAX. lia.
Defined.

(** C5, as stated, fails: the first line [main] prints is not
    ["Hello has 5 chars"]. *)
Lemma main_output_not_as_listed :
  exists r t,
    MainC.main [] = Some (r, t) /\
    stdout t <> [line "Hello has 5 chars"; line "Matching count ? No";
                 line "Foo return : 18"].
Proof.
  eexists. eexists. split; [vm_compute; reflexivity|].
  vm_compute. discriminate.
Qed.

(** C5 (amended): [main], whose inputs are [x = 10], [str = "Hello"] and
    [len = 5], prints exactly ["Matching count ? No"],
    ["Hello has 5 chars"], ["Foo return : 18"], in this order, and 18 is
    the number of characters of ["Hello has 5 chars"] with its line feed. *)
Theorem main_output :
  (exists t,
      MainC.main [] = Some (0, t) /\
      stdout t = [line "Matching count ? No"; line "Hello has 5 chars";
                  line "Foo return : 18"]) /\
  (exists t,
      MainC.foo MainC.hello 10 (Ptr 0) 5 [] = Some (18, t) /\
      stdout t = [line "Matching count ? No"; line "Hello has 5 chars"]) /\
  String.length (line "Hello has 5 chars") = 18%nat.
Proof.
  split; [|split].
  - eexists. split; [vm_compute; reflexivity|]. reflexivity.
  - eexists. split; [vm_compute; reflexivity|]. reflexivity.
  - reflexivity.
Qed.

(** ** [send_char] *)

Section SendChar.

Variable UART_HandleTypeDef : Type.
Variable huart2 : UART_HandleTypeDef.
Variable HAL_MAX_DELAY : Z.
Variable peripherals : Type.
Variable HAL_UART_Transmit :
  UART_HandleTypeDef -> list ascii -> Z -> Z ->
  peripherals -> PrintConfig.HAL_StatusTypeDef * peripherals.

Let transmit_ok :=
  fun h data size timeout p =>
    (PrintConfig.HAL_OK, snd (HAL_UART_Transmit h data size timeout p)).

(** C6: whatever the transmit function of the layer does and answers,
    [send_char c] adds exactly one call of it to the calls made so far,
    with the handle [huart2], the buffer that holds [c], the size 1 and
    the timeout [HAL_MAX_DELAY]; the peripherals are left as this call
    leaves them, and the status it answers has no influence: a layer that
    always answers [HAL_OK] gives the same result. *)
Theorem send_char_transmits_once (c : ascii)
    (w : PrintConfig.world UART_HandleTypeDef peripherals) :
  let r := PrintConfig.send_char huart2 HAL_MAX_DELAY HAL_UART_Transmit c w in
  PrintConfig.hal_calls (snd r) =
    PrintConfig.hal_calls w ++
      [{| PrintConfig.huart := huart2; PrintConfig.pData := [c];
          PrintConfig.Size := 1; PrintConfig.Timeout := HAL_MAX_DELAY |}] /\
  PrintConfig.hw (snd r) =
    snd (HAL_UART_Transmit huart2 [c] 1 HAL_MAX_DELAY (PrintConfig.hw w)) /\
  r = PrintConfig.send_char huart2 HAL_MAX_DELAY transmit_ok c w.
Proof.
  unfold PrintConfig.send_char, PrintConfig.call_HAL_UART_Transmit,
    PrintConfig.sizeof_char, transmit_ok.
  destruct (HAL_UART_Transmit huart2 [c] 1 HAL_MAX_DELAY (PrintConfig.hw w))
    as [status hw'].
  simpl. repeat split.
Qed.

End SendChar.

(** * Further properties of the code *)

(** ** The loop of [bar] on arbitrary memory *)

Lemma skipn_nil_nth_error {A} (l : list A) (a : nat) :
  skipn a l = [] -> nth_error l a = None.
Proof.
  intros H. apply nth_error_None.
  apply (f_equal (@List.length A)) in H. rewrite length_skipn in H.
  simpl in H. lia.
Qed.

(** The loop on cells none of which holds the terminator: it is left after
    [len - j] more rounds when that many cells and one more exist, and it
    runs off the memory otherwise. *)
Lemma bar_for_unterminated (m : memory) (len : Z) (Hlen : int_range len) :
  forall (cells : list ascii) (a : nat) (j : Z) (fuel : nat) (t : trace),
    skipn a m = cells ->
    forallb not_nul cells = true ->
    0 <= j ->
    (List.length cells < fuel)%nat ->
    MainC.bar_for fuel m len
      {| MainC.count := j; MainC.c := Ptr a; MainC.i := j |} t =
    if Z.max (len - j) 0 <? Z.of_nat (List.length cells) then
      Some ({| MainC.count := j + Z.max (len - j) 0;
               MainC.c := Ptr (a + S (Z.to_nat (len - j)));
               MainC.i := j + Z.max (len - j) 0 |},
            t ++ scan_events a (S (Z.to_nat (len - j))))
    else None.
Proof.
  induction cells as [|ch rest IH]; intros a j fuel t Hskip Hall Hj Hfuel;
    (destruct fuel as [|fuel]; [simpl in Hfuel; lia|]).
  - apply skipn_nil_nth_error in Hskip.
    replace (Z.max (len - j) 0 <? Z.of_nat (List.length (@nil ascii)))
      with false by (symmetry; apply Z.ltb_ge; simpl; lia).
    simpl. unfold bind, emit, lift. simpl. rewrite Hskip. reflexivity.
  - apply skipn_cons_nth_error in Hskip. destruct Hskip as [Hnth Hrest].
    simpl in Hall. apply andb_true_iff in Hall. destruct Hall as [Hch Hall].
    unfold not_nul in Hch.
    assert (Hn : Z.of_nat (List.length (ch :: rest)) =
                 Z.of_nat (List.length rest) + 1) by (simpl List.length; lia).
    rewrite Hn. clear Hn.
    simpl MainC.bar_for. unfold bind, emit, lift, ret. simpl.
    rewrite Hnth, Hch. simpl.
    destruct (j <? len) eqn:Hjl.
    + apply Z.ltb_lt in Hjl.
      assert (Hw : int_wrap (j + 1) = j + 1).
      { apply int_wrap_id. unfold int_range, INT_MIN, INT_MAX in *. lia. }
      rewrite Hw.
      rewrite (IH (S a) (j + 1) fuel (t ++ [EvLoad (Ptr a)]) Hrest Hall);
        [|lia|simpl in Hfuel; lia].
      destruct (Z.max (len - (j + 1)) 0 <? Z.of_nat (List.length rest))
        eqn:Hc.
      * apply Z.ltb_lt in Hc.
        replace (Z.max (len - j) 0 <? Z.of_nat (List.length rest) + 1)
          with true by (symmetry; apply Z.ltb_lt; lia).
        replace (Z.to_nat (len - j)) with (S (Z.to_nat (len - (j + 1))))
          by lia.
        f_equal. f_equal.
        -- f_equal; try lia. f_equal. lia.
        -- rewrite <- app_assoc. reflexivity.
      * apply Z.ltb_ge in Hc.
        replace (Z.max (len - j) 0 <? Z.of_nat (List.length rest) + 1)
          with false by (symmetry; apply Z.ltb_ge; lia).
        reflexivity.
    + apply Z.ltb_ge in Hjl.
      replace (Z.max (len - j) 0 <? Z.of_nat (List.length rest) + 1)
        with true by (symmetry; apply Z.ltb_lt; lia).
      replace (Z.to_nat (len - j)) with 0%nat by lia.
      replace (Z.max (len - j) 0) with 0 by lia.
      rewrite Z.add_0_r, Nat.add_1_r. reflexivity.
Qed.

Lemma bar_scan_none_bar (m : memory) (str : pointer) (len : Z) (t : trace) :
  MainC.bar_scan m str len (t ++ [EvCall "bar"]) = None ->
  MainC.bar m str len t = None.
Proof.
  intros H. unfold MainC.bar, bind at 1, emit at 1. unfold bind at 1.
  rewrite H. reflexivity.
Qed.

(** The loop only adds to the trace, and what it adds first is the
    dereference of the cursor it starts from. *)
Lemma bar_for_first_load (m : memory) (len : Z) :
  forall (fuel : nat) (st : MainC.bar_locals) (t : trace)
         (st' : MainC.bar_locals) (t' : trace),
    MainC.bar_for fuel m len st t = Some (st', t') ->
    exists rest, t' = t ++ EvLoad (MainC.c st) :: rest.
Proof.
  induction fuel as [|fuel IH]; intros st t st' t' H; [discriminate H|].
  simpl in H. unfold bind, emit, lift in H.
  destruct (load m (MainC.c st)) as [ch|]; [|discriminate H].
  destruct (ptr_succ (MainC.c st)) as [c'|]; [|discriminate H].
  unfold ret in H. simpl in H.
  destruct (negb (is_nul ch) && (MainC.i st <? len)).
  - apply IH in H. destruct H as (rest & Ht). simpl in Ht.
    eexists. rewrite Ht, <- app_assoc. reflexivity.
  - inversion H; subst. exists []. reflexivity.
Qed.

(** ** What [bar] reads and counts *)

(** X1: on a null-terminated string [s] at [str], for every bound, the
    loop of [bar] dereferences the cells at the indices
    [0 .. min (max len 0) (length s)] and no other: each of them exists,
    none lies after the terminator, and none lies further than [len] from
    [str]. *)
Theorem bar_reads_stay_in_string (m : memory) (a : nat) (s : list ascii)
    (len : Z) (t : trace) :
  cstring m (Ptr a) = Some s ->
  int_range len ->
  exists st t',
    MainC.bar_scan m (Ptr a) len t = Some (st, t ++ t') /\
    loads t' =
      map Ptr (seq a (S (Z.to_nat (Z.min len (Z.of_nat (List.length s)))))) /\
    forall p, In p (loads t') ->
      exists k ch,
        p = Ptr (a + k) /\ (k <= List.length s)%nat /\
        Z.of_nat k <= Z.max len 0 /\ load m p = Some ch.
Proof.
  intros Hs Hlen.
  rewrite (bar_scan_run m a s len t Hs Hlen).
  eexists. eexists. split; [reflexivity|].
  rewrite loads_scan_events. split; [reflexivity|].
  intros p Hin. apply in_map_iff in Hin. destruct Hin as (q & Hq & Hin).
  apply in_seq in Hin. unfold bar_rounds in Hin.
  exists (q - a)%nat.
  assert (Hk : (q - a <= List.length s)%nat) by lia.
  destruct (Nat.eq_dec (q - a) (List.length s)) as [He|Hne].
  - exists NUL. subst p. repeat split; try (f_equal; lia); try lia.
    replace q with (a + List.length s)%nat by lia.
    exact (cstring_terminated m a s Hs).
  - destruct (cstring_char m a s Hs (q - a)%nat) as (ch & Hload & _); [lia|].
    exists ch. subst p. repeat split; try (f_equal; lia); try lia.
    replace q with (a + (q - a))%nat at 1 by lia. exact Hload.
Qed.

Lemma bar_reads_stay_in_string_witness :
  exists st t',
    MainC.bar_scan MainC.hello (Ptr 1) 2 [] = Some (st, [] ++ t') /\
    loads t' = map Ptr (seq 1 (S (Z.to_nat (Z.min 2 (Z.of_nat 4))))) /\
    forall p, In p (loads t') ->
      exists k ch,
        p = Ptr (1 + k) /\ (k <= 4)%nat /\
        Z.of_nat k <= Z.max 2 0 /\ load MainC.hello p = Some ch.
Proof.
  apply (bar_reads_stay_in_string MainC.hello 1
           (list_ascii_of_string "ello") 2 []).
  - reflexivity.
  - unfold int_range, INT_MIN, INT_MAX. lia.
Defined.

(** X2: on a null-terminated string [s], for every bound, the loop of
    [bar] is left with [count] and [i] equal to
    [min (max len 0) (length s)], a value between 0 and [INT_MAX] that
    neither [count++] nor [++i] has wrapped, and it has dereferenced one
    cell more than it has counted. *)
Theorem bar_counters_agree (m : memory) (a : nat) (s : list ascii)
    (len : Z) (t : trace) :
  cstring m (Ptr a) = Some s ->
  int_range len ->
  exists st t',
    MainC.bar_scan m (Ptr a) len t = Some (st, t ++ t') /\
    MainC.i st = MainC.count st /\
    MainC.count st = Z.min (Z.max len 0) (Z.of_nat (List.length s)) /\
    0 <= MainC.count st <= INT_MAX /\
    Z.of_nat (List.length (loads t')) = MainC.count st + 1.
Proof.
  intros Hs Hlen.
  rewrite (bar_scan_run m a s len t Hs Hlen).
  eexists. eexists. split; [reflexivity|].
  rewrite loads_scan_events, length_map, length_seq.
  simpl MainC.i. simpl MainC.count.
  unfold bar_rounds, int_range, INT_MIN, INT_MAX in *.
  repeat split; lia.
Qed.

Lemma bar_counters_agree_witness :
  exists st t',
    MainC.bar_scan MainC.hello (Ptr 0) 7 [] = Some (st, [] ++ t') /\
    MainC.i st = MainC.count st /\
    MainC.count st = Z.min (Z.max 7 0) (Z.of_nat 5) /\
    0 <= MainC.count st <= INT_MAX /\
    Z.of_nat (List.length (loads t')) = MainC.count st + 1.
Proof.
  apply (bar_counters_agree MainC.hello 0
           (list_ascii_of_string "Hello") 7 []).
  - reflexivity.
  - unfold int_range, INT_MIN, INT_MAX. lia.
Defined.

(** X3: on cells that hold no terminator up to the end of the memory,
    [bar] returns exactly when more cells are left than [max len 0]: it
    then has counted [max len 0] characters and read the cell behind them;
    otherwise, so also when exactly [len] cells are left, its loop reads
    past the last cell and [bar] has no defined outcome. *)
Theorem bar_unterminated_buffer (m : memory) (a : nat) (len : Z)
    (t : trace) :
  forallb not_nul (skipn a m) = true ->
  int_range len ->
  (Z.max len 0 < Z.of_nat (List.length m - a) ->
   (exists st,
       MainC.bar_scan m (Ptr a) len t =
         Some (st, t ++ scan_events a (S (Z.to_nat len))) /\
       MainC.count st = Z.max len 0) /\
   exists t', MainC.bar m (Ptr a) len t = Some (tt, t ++ t')) /\
  (Z.of_nat (List.length m - a) <= Z.max len 0 ->
   MainC.bar_scan m (Ptr a) len t = None /\
   MainC.bar m (Ptr a) len t = None).
Proof.
  intros Hall Hlen.
  assert (Hrun : forall u,
    MainC.bar_scan m (Ptr a) len u =
    if Z.max len 0 <? Z.of_nat (List.length m - a) then
      Some ({| MainC.count := Z.max len 0;
               MainC.c := Ptr (a + S (Z.to_nat len));
               MainC.i := Z.max len 0 |},
            u ++ scan_events a (S (Z.to_nat len)))
    else None).
  { intros u. unfold MainC.bar_scan.
    rewrite (bar_for_unterminated m len Hlen (skipn a m) a 0
               (S (List.length m)) u eq_refl Hall);
      [|lia|rewrite length_skipn; lia].
    rewrite length_skipn, Z.sub_0_r. reflexivity. }
  split; intros Hc.
  - apply Z.ltb_lt in Hc. split.
    + rewrite Hrun, Hc. eexists. split; reflexivity.
    + unfold MainC.bar, bind at 1, emit at 1. unfold bind at 1.
      rewrite Hrun, Hc. cbn. rewrite <- !app_assoc.
      eexists. reflexivity.
  - apply Z.ltb_ge in Hc. split.
    + rewrite Hrun, Hc. reflexivity.
    + apply bar_scan_none_bar. rewrite Hrun, Hc. reflexivity.
Qed.

Lemma bar_unterminated_buffer_witness :
  ((exists st,
       MainC.bar_scan (list_ascii_of_string "abc") (Ptr 0) 2 [] =
         Some (st, [] ++ scan_events 0 (S (Z.to_nat 2))) /\
       MainC.count st = Z.max 2 0) /\
   exists t',
     MainC.bar (list_ascii_of_string "abc") (Ptr 0) 2 [] =
       Some (tt, [] ++ t')) /\
  (MainC.bar_scan (list_ascii_of_string "abc") (Ptr 0) 3 [] = None /\
   MainC.bar (list_ascii_of_string "abc") (Ptr 0) 3 [] = None).
Proof.
  assert (Hall : forallb not_nul (skipn 0 (list_ascii_of_string "abc")) = true)
    by reflexivity.
  assert (H2 : int_range 2) by (unfold int_range, INT_MIN, INT_MAX; lia).
  assert (H3 : int_range 3) by (unfold int_range, INT_MIN, INT_MAX; lia).
  split.
  - apply (proj1 (bar_unterminated_buffer
                    (list_ascii_of_string "abc") 0 2 [] Hall H2)).
    simpl. lia.
  - apply (proj2 (bar_unterminated_buffer
                    (list_ascii_of_string "abc") 0 3 [] Hall H3)).
    simpl. lia.
Defined.

(** X4: what [bar] does with a null-terminated string depends on where the
    string lies, how long it is and on [len], not on its characters: on two
    memories that hold strings of equal length at [str], [bar] returns with
    the same trace, and its loop with the same locals. *)
Theorem bar_ignores_characters (m1 m2 : memory) (a : nat)
    (s1 s2 : list ascii) (len : Z) (t : trace) :
  cstring m1 (Ptr a) = Some s1 ->
  cstring m2 (Ptr a) = Some s2 ->
  List.length s1 = List.length s2 ->
  int_range len ->
  (exists r,
      MainC.bar_scan m1 (Ptr a) len t = Some r /\
      MainC.bar_scan m2 (Ptr a) len t = Some r) /\
  (exists t',
      MainC.bar m1 (Ptr a) len t = Some (tt, t') /\
      MainC.bar m2 (Ptr a) len t = Some (tt, t')).
Proof.
  intros H1 H2 Hl Hlen. split.
  - rewrite (bar_scan_run m1 a s1 len t H1 Hlen),
            (bar_scan_run m2 a s2 len t H2 Hlen), Hl.
    eexists. split; reflexivity.
  - rewrite (bar_run m1 a s1 len t H1 Hlen),
            (bar_run m2 a s2 len t H2 Hlen), Hl.
    eexists. split; reflexivity.
Qed.

Lemma bar_ignores_characters_witness :
  (exists r,
      MainC.bar_scan MainC.hello (Ptr 0) 4 [] = Some r /\
      MainC.bar_scan (list_ascii_of_string "World" ++ [NUL; "!"%char])
        (Ptr 0) 4 [] = Some r) /\
  (exists t',
      MainC.bar MainC.hello (Ptr 0) 4 [] = Some (tt, t') /\
      MainC.bar (list_ascii_of_string "World" ++ [NUL; "!"%char])
        (Ptr 0) 4 [] = Some (tt, t')).
Proof.
  apply (bar_ignores_characters MainC.hello
           (list_ascii_of_string "World" ++ [NUL; "!"%char]) 0
           (list_ascii_of_string "Hello") (list_ascii_of_string "World") 4 []).
  - reflexivity.
  - reflexivity.
  - reflexivity.
  - unfold int_range, INT_MIN, INT_MAX. lia.
Defined.

(** X5: whatever [len] is, also when it is zero or negative, [bar] reads
    the cell at [str] before anything else: when that cell cannot be read
    (a null pointer, an address outside the memory) [bar] has no defined
    outcome, and every run of [bar] that returns has the dereference of
    [str] as its first event after the entry. *)
Theorem bar_reads_first_cell (m : memory) (str : pointer) (len : Z)
    (t : trace) :
  (load m str = None -> MainC.bar m str len t = None) /\
  (forall t', MainC.bar m str len t = Some (tt, t') ->
     exists ch rest,
       load m str = Some ch /\
       t' = t ++ EvCall "bar" :: EvLoad str :: rest).
Proof.
  split.
  - intros Hload. apply bar_scan_none_bar.
    unfold MainC.bar_scan. simpl. unfold bind, emit, lift. simpl.
    rewrite Hload. reflexivity.
  - intros t' H.
    unfold MainC.bar, bind at 1, emit at 1 in H. unfold bind at 1 in H.
    destruct (MainC.bar_scan m str len (t ++ [EvCall "bar"]))
      as [[st t1]|] eqn:Hscan; [|discriminate H].
    pose proof Hscan as Hfirst.
    apply bar_for_first_load in Hfirst. destruct Hfirst as (rest & Ht1).
    simpl in Ht1.
    destruct (load m str) as [ch|] eqn:Hload.
    + cbn in H. unfold MainC.bar_answer in H.
      destruct (truthy (MainC.c st)); cbn in H; inversion H; subst;
        exists ch; eexists; (split; [reflexivity|]);
        rewrite <- !app_assoc; reflexivity.
    + unfold MainC.bar_scan in Hscan. simpl in Hscan.
      unfold bind, emit, lift in Hscan. simpl in Hscan.
      rewrite Hload in Hscan. discriminate Hscan.
Qed.

Lemma bar_reads_first_cell_witness :
  MainC.bar MainC.hello Null (-1) [] = None /\
  MainC.bar MainC.hello (Ptr 6) 0 [] = None /\
  exists ch rest,
    load MainC.hello (Ptr 0) = Some ch /\
    [EvCall "bar"; EvLoad (Ptr 0); EvPrint (line "Matching count ? No")] =
      [] ++ EvCall "bar" :: EvLoad (Ptr 0) :: rest.
Proof.
  split; [|split].
  - apply (proj1 (bar_reads_first_cell MainC.hello Null (-1) [])).
    reflexivity.
  - apply (proj1 (bar_reads_first_cell MainC.hello (Ptr 6) 0 [])).
    reflexivity.
  - apply (proj2 (bar_reads_first_cell MainC.hello (Ptr 0) 0 [])).
    reflexivity.
Defined.

(** ** The value [foo] returns *)

Lemma decimal_nonempty (z : Z) : (1 <= String.length (decimal z))%nat.
Proof.
  unfold decimal. destruct (Z.to_int z) as [d|d].
  - destruct d; simpl; lia.
  - simpl. lia.
Qed.

(** X6: on a null-terminated string and an [int] bound [foo] always
    returns. While [printf] succeeds (the standard output is not in error
    and the line has at most [INT_MAX] bytes) the value [-1] tells the two
    paths apart: it is returned exactly when [x < 10]. When [printf] fails,
    [foo] hands on its negative result although [x >= 10]. *)
Theorem foo_sentinel_and_printf_failure (m : memory) (x : Z) (str : pointer)
    (s : list ascii) (len : Z) (t : trace) :
  cstring m str = Some s ->
  int_range len ->
  exists r t',
    MainC.foo m x str len t = Some (r, t ++ t') /\
    (stream_ok t = true ->
     Z.of_nat (String.length (has_chars_line s len)) <= INT_MAX ->
     (r = -1 <-> x < 10)) /\
    (10 <= x ->
     stream_ok t = false \/
       INT_MAX < Z.of_nat (String.length (has_chars_line s len)) ->
     r < 0).
Proof.
  intros Hs Hlen.
  destruct str as [|a]; [discriminate Hs|].
  destruct (Z.lt_ge_cases x 10) as [Hx|Hx].
  - rewrite (foo_low_run m x (Ptr a) len t Hx).
    eexists. eexists. split; [reflexivity|]. split.
    + intros _ _. split; intros _; [exact Hx|reflexivity].
    + intros Hx'. lia.
  - rewrite (foo_high_run m x a s len t Hx Hs Hlen).
    eexists. eexists. split; [reflexivity|]. split.
    + intros Hok Hfit. rewrite (printf_result_ok t _ Hok Hfit).
      pose proof (has_chars_line_length s len) as Hl.
      split; intros H; lia.
    + intros _ Hfail. apply printf_result_failed. exact Hfail.
Qed.

Lemma foo_sentinel_and_printf_failure_witness :
  (exists r t',
      MainC.foo MainC.hello 10 (Ptr 0) (-1) [] = Some (r, [] ++ t') /\
      (r = -1 <-> 10 < 10)) /\
  (exists r t',
      MainC.foo MainC.hello 10 (Ptr 0) (-1) [EvStdoutError] =
        Some (r, [EvStdoutError] ++ t') /\
      r < 0).
Proof.
  assert (Hs : cstring MainC.hello (Ptr 0) =
               Some (list_ascii_of_string "Hello")) by reflexivity.
  assert (Hlen : int_range (-1))
    by (unfold int_range, INT_MIN, INT_MAX; lia).
  split.
  - destruct (foo_sentinel_and_printf_failure MainC.hello 10 (Ptr 0)
                (list_ascii_of_string "Hello") (-1) [] Hs Hlen)
      as (r & t' & Hrun & Hiff & _).
    exists r, t'. split; [exact Hrun|].
    apply Hiff; [reflexivity|vm_compute; discriminate].
  - destruct (foo_sentinel_and_printf_failure MainC.hello 10 (Ptr 0)
                (list_ascii_of_string "Hello") (-1) [EvStdoutError] Hs Hlen)
      as (r & t' & Hrun & _ & Hneg).
    exists r, t'. split; [exact Hrun|].
    apply Hneg; [lia|left; reflexivity].
Defined.

(** X7: for [x >= 10], a null-terminated string [s] at [str] and an [int]
    bound, when the standard output is not in error and the value fits an
    [int], the value [foo] returns is the length of [s] plus the number of
    characters of [len] in decimal plus 12 (the eleven characters of
    [" has "] and [" chars"] and the line feed); [len] has at least one
    character, so the value is at least [length s + 13]. It is computed
    from [len] as it was passed, not from what [bar] counted. *)
Theorem foo_return_value (m : memory) (x : Z) (str : pointer)
    (s : list ascii) (len : Z) (t : trace) :
  10 <= x ->
  cstring m str = Some s ->
  int_range len ->
  stream_ok t = true ->
  Z.of_nat (List.length s) +
    Z.of_nat (String.length (decimal len)) + 12 <= INT_MAX ->
  exists t',
    MainC.foo m x str len t =
      Some (Z.of_nat (List.length s) +
            Z.of_nat (String.length (decimal len)) + 12, t ++ t') /\
    Z.of_nat (List.length s) + 13 <=
      Z.of_nat (List.length s) + Z.of_nat (String.length (decimal len)) + 12.
Proof.
  intros Hx Hs Hlen Hok Hfit.
  destruct str as [|a]; [discriminate Hs|].
  rewrite (foo_high_run m x a s len t Hx Hs Hlen).
  assert (Hl : Z.of_nat (String.length (has_chars_line s len)) =
               Z.of_nat (List.length s) +
               Z.of_nat (String.length (decimal len)) + 12).
  { unfold has_chars_line.
    rewrite !string_length_app, string_of_list_ascii_length. simpl. lia. }
  rewrite (printf_result_ok t _ Hok); [|rewrite Hl; exact Hfit].
  rewrite Hl. eexists. split; [reflexivity|].
  pose proof (decimal_nonempty len). lia.
Qed.

Lemma foo_return_value_witness :
  exists t',
    MainC.foo MainC.hello 11 (Ptr 0) (-300) [] =
      Some (Z.of_nat 5 + Z.of_nat (String.length (decimal (-300))) + 12,
            [] ++ t') /\
    Z.of_nat 5 + 13 <=
      Z.of_nat 5 + Z.of_nat (String.length (decimal (-300))) + 12.
Proof.
  apply (foo_return_value MainC.hello 11 (Ptr 0)
           (list_ascii_of_string "Hello") (-300) []).
  - lia.
  - reflexivity.
  - unfold int_range, INT_MIN, INT_MAX. lia.
  - reflexivity.
  - vm_compute. discriminate.
Defined.

(** X9: [foo] called as [main] calls it, with [len = strlen(str)], for
    any null-terminated string [s] whose length fits an [int] and any
    [x >= 10]: [strlen] gives [length s] and prints nothing, the loop of
    [bar] reads the characters of [s] and its terminator and no other cell,
    and [foo] prints ["Matching count ? No"] and then the line for [s] and
    [length s]. *)
Theorem foo_on_strlen (m : memory) (a : nat) (s : list ascii) (x : Z)
    (t : trace) :
  cstring m (Ptr a) = Some s ->
  Z.of_nat (List.length s) <= INT_MAX ->
  10 <= x ->
  strlen m (Ptr a) t = Some (List.length s, t) /\
  exists r t',
    MainC.foo m x (Ptr a) (int_wrap (Z.of_nat (List.length s))) t =
      Some (r, t ++ t') /\
    loads t' = map Ptr (seq a (S (List.length s))) /\
    last (loads t') Null = Ptr (a + List.length s) /\
    load m (Ptr (a + List.length s)) = Some NUL /\
    stdout t' = [line "Matching count ? No";
                 has_chars_line s (Z.of_nat (List.length s))].
Proof.
  intros Hs Hmax Hx.
  assert (Hr : int_range (Z.of_nat (List.length s)))
    by (unfold int_range, INT_MIN, INT_MAX in *; lia).
  split.
  - unfold strlen, bind, lift. rewrite Hs. reflexivity.
  - rewrite (int_wrap_id _ Hr).
    rewrite (foo_high_run m x a s _ t Hx Hs Hr).
    assert (Hd : bar_rounds (Z.of_nat (List.length s)) (List.length s) =
                 List.length s) by (unfold bar_rounds; lia).
    rewrite Hd. eexists. eexists. split; [reflexivity|].
    rewrite !loads_app, !stdout_app, loads_scan_events, stdout_scan_events.
    simpl. rewrite app_nil_r.
    split; [reflexivity|]. split; [|split; [|reflexivity]].
    + apply (last_scan_loads a (List.length s)).
    + exact (cstring_terminated m a s Hs).
Qed.

Lemma foo_on_strlen_witness :
  strlen MainC.hello (Ptr 2) [] = Some (3%nat, []) /\
  exists r t',
    MainC.foo MainC.hello 10 (Ptr 2) (int_wrap (Z.of_nat 3)) [] =
      Some (r, [] ++ t') /\
    loads t' = map Ptr (seq 2 (S 3)) /\
    last (loads t') Null = Ptr (2 + 3) /\
    load MainC.hello (Ptr (2 + 3)) = Some NUL /\
    stdout t' = [line "Matching count ? No";
                 has_chars_line (list_ascii_of_string "llo") (Z.of_nat 3)].
Proof.
  apply (foo_on_strlen MainC.hello 2 (list_ascii_of_string "llo") 10 []).
  - reflexivity.
  - unfold INT_MAX. simpl. lia.
  - lia.
Defined.

(** ** [send_char] called repeatedly *)

Section SendChars.

Variable UART_HandleTypeDef : Type.
Variable huart2 : UART_HandleTypeDef.
Variable HAL_MAX_DELAY : Z.
Variable peripherals : Type.
Variable HAL_UART_Transmit :
  UART_HandleTypeDef -> list ascii -> Z -> Z ->
  peripherals -> PrintConfig.HAL_StatusTypeDef * peripherals.

(** X8: calling [send_char] on the characters of [cs] one after the other
    adds to the calls of the layer one call per character, in the order of
    [cs], each with [huart2], a one-byte buffer, the size 1 and
    [HAL_MAX_DELAY]; earlier calls are kept as they were, and the
    peripherals go through these transmissions in the same order, whatever
    statuses the layer answers. *)
Theorem send_chars_calls (cs : list ascii)
    (w : PrintConfig.world UART_HandleTypeDef peripherals) :
  let w' := send_chars huart2 HAL_MAX_DELAY HAL_UART_Transmit cs w in
  PrintConfig.hal_calls w' =
    PrintConfig.hal_calls w ++ map (char_call huart2 HAL_MAX_DELAY) cs /\
  PrintConfig.hw w' =
    fold_left
      (fun p c => snd (HAL_UART_Transmit huart2 [c] 1 HAL_MAX_DELAY p))
      cs (PrintConfig.hw w).
Proof.
  revert w. induction cs as [|c cs IH]; intros w; simpl.
  - rewrite app_nil_r. split; reflexivity.
  - specialize
      (IH (snd (PrintConfig.send_char huart2 HAL_MAX_DELAY
                  HAL_UART_Transmit c w))).
    simpl in IH. unfold send_chars in *. destruct IH as [IHc IHh].
    rewrite IHc, IHh.
    unfold PrintConfig.send_char, PrintConfig.call_HAL_UART_Transmit,
      PrintConfig.sizeof_char.
    destruct (HAL_UART_Transmit huart2 [c] 1 HAL_MAX_DELAY (PrintConfig.hw w))
      as [status hw'].
    simpl. rewrite <- app_assoc. split; reflexivity.
Qed.

End SendChars.
